(** * Road ribbon geometry of [polynomial_visualizer.py]

    A shallow embedding of the geometric core of the visualizer: the cubic
    elevation polynomial and its derivative ([cubic_poly],
    [cubic_poly_derivative]), the centerline and local frame
    ([build_centerline]) and the two-rail mesh ([make_road_mesh]).

    Modelling choices.
    - A NumPy one-dimensional float array is a [list R]: the scalars are the
      real numbers, and every arithmetic operation is exact.  Rounding,
      overflow, NaN and infinities of binary64 are outside this model.
    - NumPy raises [ValueError] when two operands cannot be broadcast
      together.  Array-array operations therefore live in a small exception
      monad, and the functions of the source are written in it, statement by
      statement.
    - [lateral_func] is an optional function from the sample array to a pair
      of arrays [(y, y')]; the two arrays it returns are distinct objects. *)

From Stdlib Require Import Reals Lra Psatz Lia List Arith.
Import ListNotations.
Local Open Scope R_scope.

(** ** Arrays and exceptions *)

Definition array := list R.

Inductive exception : Type :=
| ValueError.

Inductive result (A : Type) : Type :=
| Ok (v : A)
| Raise (e : exception).

Arguments Ok {A} v.
Arguments Raise {A} e.

Definition bind {A B : Type} (m : result A) (k : A -> result B) : result B :=
  match m with
  | Ok v => k v
  | Raise e => Raise e
  end.

Notation "x <- m ;; k" := (bind m (fun x => k))
  (at level 61, m at next level, right associativity).
Notation "' p <- m ;; k" := (bind m (fun p => k))
  (at level 61, p pattern, m at next level, right associativity).

(** ** The NumPy operations the source uses

    [sadd], [smul] and [pow] are [k + x], [k * x] and [x ** n] with a Python
    scalar [k] and exponent [n]; [add], [sub] and [mul] are [x + y], [x - y]
    and [x * y] on two arrays; [lt] is [x < k]; [idiv] is [x /= y]; [where_]
    is [np.where]. *)

Module np.

Definition zeros_like (s : array) : array := map (fun _ => 0) s.
Definition ones_like (s : array) : array := map (fun _ => 1) s.
Definition copy (s : array) : array := s.

(** A Python scalar combined with an array: always defined. *)
Definition sadd (k : R) (x : array) : array := map (fun v => k + v) x.
Definition smul (k : R) (x : array) : array := map (fun v => k * v) x.
Definition pow (x : array) (n : nat) : array := map (fun v => v ^ n) x.
Definition sqrt (x : array) : array := map sqrt x.
Definition lt (x : array) (k : R) : list bool :=
  map (fun v => if Rlt_dec v k then true else false) x.

Fixpoint zip_with {A B C : Type} (f : A -> B -> C)
    (x : list A) (y : list B) : list C :=
  match x, y with
  | u :: x', v :: y' => f u v :: zip_with f x' y'
  | _, _ => []
  end.

(** Two one-dimensional operands: equal lengths combine element by
    element, a length-one operand is stretched, anything else raises. *)
Definition broadcast {A B C : Type} (f : A -> B -> C)
    (x : list A) (y : list B) : result (list C) :=
  if Nat.eqb (length x) (length y) then Ok (zip_with f x y)
  else match x, y with
       | [u], _ => Ok (map (f u) y)
       | _, [v] => Ok (map (fun u => f u v) x)
       | _, _ => Raise ValueError
       end.

Definition add : array -> array -> result array := broadcast Rplus.
Definition sub : array -> array -> result array := broadcast Rminus.
Definition mul : array -> array -> result array := broadcast Rmult.

(** [np.where(c, k, x)] with a scalar [k]. *)
Definition where_ (c : list bool) (k : R) (x : array) : result array :=
  broadcast (fun (b : bool) v => if b then k else v) c x.

(** [x /= y]: the result is stored in [x], so [y] may be stretched to the
    shape of [x] but [x] may not grow. *)
Definition idiv (x y : array) : result array :=
  if Nat.eqb (length x) (length y) then Ok (zip_with Rdiv x y)
  else match y with
       | [v] => Ok (map (fun u => u / v) x)
       | _ => Raise ValueError
       end.

(** [np.vstack((r0, r1))] of two one-dimensional arrays. *)
Definition vstack (r0 r1 : array) : result (list array) :=
  if Nat.eqb (length r0) (length r1) then Ok [r0; r1]
  else Raise ValueError.

End np.

(** ** Geometry and helpers *)

(** Lines 37-39: [return a + b*s + c*s**2 + d*s**3] *)
Definition cubic_poly (s : array) (a b c d : R) : result array :=
  t <- np.add (np.sadd a (np.smul b s)) (np.smul c (np.pow s 2)) ;;
  np.add t (np.smul d (np.pow s 3)).

(** Lines 41-43: [return b + 2.0*c*s + 3.0*d*s**2] *)
Definition cubic_poly_derivative (s : array) (b c d : R) : result array :=
  np.add (np.sadd b (np.smul (2.0 * c) s)) (np.smul (3.0 * d) (np.pow s 2)).

(** ** The centerline and its local frame

    [build_centerline] is split at the comment lines of its body; each part
    below is one contiguous run of statements of the source. *)

Definition vec3 : Type := R * R * R.
Definition arrays3 : Type := array * array * array.

(** Lines 51-55, [Yc, dYds]: zeros when no lateral function is given. *)
Definition lateral (s : array) (lateral_func : option (array -> array * array))
  : array * array :=
  match lateral_func with
  | None => (np.zeros_like s, np.zeros_like s)
  | Some f => f s
  end.

(** Lines 64 and 73: [np.sqrt(Vx*Vx + Vy*Vy + Vz*Vz)] *)
Definition norm_of '((Vx, Vy, Vz) : arrays3) : result array :=
  xx <- np.mul Vx Vx ;;
  yy <- np.mul Vy Vy ;;
  xy <- np.add xx yy ;;
  zz <- np.mul Vz Vz ;;
  n2 <- np.add xy zz ;;
  Ok (np.sqrt n2).

(** Lines 65 and 77: [Vx /= n; Vy /= n; Vz /= n] *)
Definition divide_by '((Vx, Vy, Vz) : arrays3) (n : array) : result arrays3 :=
  Vx <- np.idiv Vx n ;;
  Vy <- np.idiv Vy n ;;
  Vz <- np.idiv Vz n ;;
  Ok (Vx, Vy, Vz).

(** Lines 61-63, the tangent before normalisation:
    [(np.ones_like(s), dYds, dZds)]. *)
Definition raw_tangent (s dYds dZds : array) : arrays3 :=
  (np.ones_like s, dYds, dZds).

(** Lines 61-65, the tangent block: the norm [Tnorm] and the normalised
    [(Tx, Ty, Tz)]. *)
Definition unit_tangent (s dYds dZds : array) : result (array * arrays3) :=
  let T := raw_tangent s dYds dZds in
  Tnorm <- norm_of T ;;
  T <- divide_by T Tnorm ;;
  Ok (Tnorm, T).

Definition Ux : R := 0.0.
Definition Uy : R := 0.0.
Definition Uz : R := 1.0.

(** Lines 70-72: the left candidate [U x T], not yet normalised. *)
Definition left_candidate '((Tx, Ty, Tz) : arrays3) : result arrays3 :=
  Lx <- np.sub (np.smul Uy Tz) (np.smul Uz Ty) ;;
  Ly <- np.sub (np.smul Uz Tx) (np.smul Ux Tz) ;;
  Lz <- np.sub (np.smul Ux Ty) (np.smul Uy Tx) ;;
  Ok (Lx, Ly, Lz).

Definition small : R := 1e-8.

(** Line 76: [Lnorm = np.where(Lnorm < small, 1.0, Lnorm)] *)
Definition protect (Lnorm : array) : result array :=
  np.where_ (np.lt Lnorm small) 1.0 Lnorm.

(** The frame of the centerline: every array the tangent and left blocks
    of [build_centerline] compute, in the order of the source.
    [Tnorm] and [T] are the norm and the normalised tangent, [Lcand] is the
    left candidate before normalisation, [Lnorm] its norm as first computed,
    [Lsafe] the norm after the degenerate samples were replaced, and [L] the
    left vectors the function returns. *)
Record frame : Type := Frame {
  Tnorm : array;
  T : arrays3;
  Lcand : arrays3;
  Lnorm : array;
  Lsafe : array;
  L : arrays3
}.

(** Lines 61-77. *)
Definition build_frame (s dYds dZds : array) : result frame :=
  '(Tnorm, T) <- unit_tangent s dYds dZds ;;
  Lcand <- left_candidate T ;;
  Lnorm <- norm_of Lcand ;;
  Lsafe <- protect Lnorm ;;
  L <- divide_by Lcand Lsafe ;;
  Ok (Frame Tnorm T Lcand Lnorm Lsafe L).

(** Lines 45-79; the tangent and left blocks are [build_frame]. *)
Definition build_centerline (s : array) (a b c d : R)
    (lateral_func : option (array -> array * array))
  : result (array * array * array * array * array * array) :=
  let Xc := np.copy s in
  let '(Yc, dYds) := lateral s lateral_func in
  Zc <- cubic_poly s a b c d ;;
  dZds <- cubic_poly_derivative s b c d ;;
  fr <- build_frame s dYds dZds ;;
  let '(Lx, Ly, Lz) := L fr in
  Ok (Xc, Yc, Zc, Lx, Ly, Lz).

(** ** The road mesh *)

(** A two-dimensional array is the list of its rows. *)
Definition array2 := list array.

(** Lines 81-96. *)
Definition make_road_mesh (Xc Yc Zc Lx Ly Lz : array) (width : R)
  : result (array2 * array2 * array2) :=
  let half := width / 2.0 in
  left_x <- np.add Xc (np.smul half Lx) ;;
  left_y <- np.add Yc (np.smul half Ly) ;;
  left_z <- np.add Zc (np.smul half Lz) ;;
  right_x <- np.sub Xc (np.smul half Lx) ;;
  right_y <- np.sub Yc (np.smul half Ly) ;;
  right_z <- np.sub Zc (np.smul half Lz) ;;
  X <- np.vstack left_x right_x ;;
  Y <- np.vstack left_y right_y ;;
  Z <- np.vstack left_z right_z ;;
  Ok (X, Y, Z).

(** ** Reading arrays sample by sample *)

(** Entry [i] of a one-dimensional array, and entry [(r, i)] of a
    two-dimensional one. *)
Definition item (x : array) (i : nat) : R := nth i x 0.
Definition item2 (x : array2) (r i : nat) : R := nth i (nth r x []) 0.

Definition sample '((Vx, Vy, Vz) : arrays3) (i : nat) : vec3 :=
  (item Vx i, item Vy i, item Vz i).

(** Column [i] of row [r] of a mesh. *)
Definition mesh_point '((X, Y, Z) : array2 * array2 * array2) (r i : nat) : vec3 :=
  (item2 X r i, item2 Y r i, item2 Z r i).

Definition shape2 (x : array2) (rows cols : nat) : Prop :=
  length x = rows /\ Forall (fun row => length row = cols) x.

Definition norm '((x, y, z) : vec3) : R := sqrt (x * x + y * y + z * z).
Definition dot '((x1, y1, z1) : vec3) '((x2, y2, z2) : vec3) : R :=
  x1 * x2 + y1 * y2 + z1 * z2.
Definition vsub '((x1, y1, z1) : vec3) '((x2, y2, z2) : vec3) : vec3 :=
  (x1 - x2, y1 - y2, z1 - z2).
Definition midpoint '((x1, y1, z1) : vec3) '((x2, y2, z2) : vec3) : vec3 :=
  ((x1 + x2) / 2, (y1 + y2) / 2, (z1 + z2) / 2).

(** The three arrays read off one list of samples. *)
Definition unzip3 {D : Type} (t : D -> vec3) (l : list D) : arrays3 :=
  (map (fun p => fst (fst (t p))) l,
   map (fun p => snd (fst (t p))) l,
   map (fun p => snd (t p)) l).

(** [lateral_func] respects the shape of the sample array: the derivative
    array it returns has one entry per sample. *)
Definition lateral_shape (s : array)
    (lateral_func : option (array -> array * array)) : Prop :=
  length (snd (lateral s lateral_func)) = length s.

(** ** The same computations on one sample

    Closed forms of what the array code computes at a single sample; the
    array functions are shown below to agree with them entry by entry. *)

Definition cubic (a b c d si : R) : R := a + b * si + c * si ^ 2 + d * si ^ 3.
Definition cubic' (b c d si : R) : R := b + 2 * c * si + 3 * d * si ^ 2.

Definition tangent_norm_at (dy dz : R) : R := sqrt (1 * 1 + dy * dy + dz * dz).

Definition tangent_at (dy dz : R) : vec3 :=
  let n := tangent_norm_at dy dz in (1 / n, dy / n, dz / n).

(** The samples of the two slope arrays, paired. *)
Definition slopes (dYds dZds : array) : list (R * R) := combine dYds dZds.

Definition tangent_of (p : R * R) : vec3 := tangent_at (fst p) (snd p).

Definition left_candidate_at '((tx, ty, tz) : vec3) : vec3 :=
  (Uy * tz - Uz * ty, Uz * tx - Ux * tz, Ux * ty - Uy * tx).

Definition protect_at (n : R) : R :=
  if (if Rlt_dec n small then true else false) then 1.0 else n.

Definition scale_inv '((x, y, z) : vec3) (n : R) : vec3 := (x / n, y / n, z / n).

Definition left_at (t : vec3) : vec3 :=
  let l := left_candidate_at t in scale_inv l (protect_at (norm l)).

(** One rail coordinate: [Vc + half * V] or [Vc - half * V]. *)
Definition rail (f : R -> R -> R) (half : R) (Vc V : array) : array :=
  np.zip_with f Vc (np.smul half V).

(** The centerline and left arrays all have [n] entries. *)
Definition columns (n : nat) (Xc Yc Zc Lx Ly Lz : array) : Prop :=
  length Xc = n /\ length Yc = n /\ length Zc = n /\
  length Lx = n /\ length Ly = n /\ length Lz = n.

(** Equalities between meshes of explicit real numbers. *)
Ltac reals :=
  repeat match goal with
         | |- Ok _ = Ok _ => f_equal
         | |- (_, _) = (_, _) => f_equal
         | |- _ :: _ = _ :: _ => f_equal
         | |- @eq R _ _ => lra
         end.

(** ** Arrays of equal length *)

Lemma zip_with_length {A B C : Type} (f : A -> B -> C) (x : list A) :
  forall y : list B, length x = length y ->
  length (np.zip_with f x y) = length x.
Proof.
  induction x as [|u x IH]; intros [|v y] H; simpl in *; try congruence.
  f_equal. apply IH. congruence.
Qed.

Lemma zip_with_map {A B C D : Type} (f : A -> B -> C) (g : D -> A) (h : D -> B)
    (l : list D) :
  np.zip_with f (map g l) (map h l) = map (fun p => f (g p) (h p)) l.
Proof.
  induction l as [|p l IH]; simpl; [reflexivity | now rewrite IH].
Qed.

Lemma broadcast_same_length {A B C : Type} (f : A -> B -> C)
    (x : list A) (y : list B) :
  length x = length y -> np.broadcast f x y = Ok (np.zip_with f x y).
Proof.
  intros H. unfold np.broadcast. rewrite H, Nat.eqb_refl. reflexivity.
Qed.

Lemma broadcast_map {A B C D : Type} (f : A -> B -> C) (g : D -> A) (h : D -> B)
    (l : list D) :
  np.broadcast f (map g l) (map h l) = Ok (map (fun p => f (g p) (h p)) l).
Proof.
  rewrite broadcast_same_length by now rewrite !length_map.
  now rewrite zip_with_map.
Qed.

Lemma cubic_poly_map (s : array) (a b c d : R) :
  cubic_poly s a b c d = Ok (map (cubic a b c d) s).
Proof.
  unfold cubic_poly, np.add, np.sadd, np.smul, np.pow.
  rewrite !map_map.
  rewrite broadcast_map. simpl.
  rewrite broadcast_map. reflexivity.
Qed.

Lemma cubic_poly_derivative_map (s : array) (b c d : R) :
  cubic_poly_derivative s b c d = Ok (map (cubic' b c d) s).
Proof.
  unfold cubic_poly_derivative, np.add, np.sadd, np.smul, np.pow.
  rewrite !map_map, broadcast_map.
  f_equal. apply map_ext. intros si. unfold cubic'. lra.
Qed.

Lemma item_map {A : Type} (f : A -> R) (l : list A) (i : nat) (d : A) :
  (i < length l)%nat -> item (map f l) i = f (nth i l d).
Proof.
  intros H. unfold item.
  rewrite (nth_indep _ 0 (f d)) by now rewrite length_map.
  apply map_nth.
Qed.

Lemma item_zip_with (f : R -> R -> R) (x : array) :
  forall (y : array) (i : nat), length x = length y -> (i < length x)%nat ->
  item (np.zip_with f x y) i = f (item x i) (item y i).
Proof.
  unfold item.
  induction x as [|u x IH]; intros [|v y] i Hlen Hi; simpl in *; try lia.
  destruct i as [|i]; [reflexivity|]. apply IH; lia.
Qed.

Lemma idiv_map {D : Type} (g h : D -> R) (l : list D) :
  np.idiv (map g l) (map h l) = Ok (map (fun p => g p / h p) l).
Proof.
  unfold np.idiv. rewrite !length_map, Nat.eqb_refl.
  now rewrite zip_with_map.
Qed.

Lemma norm_of_map {D : Type} (f g h : D -> R) (l : list D) :
  norm_of (map f l, map g l, map h l)
  = Ok (map (fun p => norm (f p, g p, h p)) l).
Proof.
  unfold norm_of, np.mul, np.add, np.sqrt.
  repeat (rewrite broadcast_map; simpl).
  now rewrite map_map.
Qed.

Lemma divide_by_map {D : Type} (f g h n : D -> R) (l : list D) :
  divide_by (map f l, map g l, map h l) (map n l)
  = Ok (map (fun p => f p / n p) l,
        map (fun p => g p / n p) l,
        map (fun p => h p / n p) l).
Proof.
  unfold divide_by. repeat (rewrite idiv_map; simpl). reflexivity.
Qed.

Lemma left_candidate_map {D : Type} (f g h : D -> R) (l : list D) :
  left_candidate (map f l, map g l, map h l)
  = Ok (map (fun p => Uy * h p - Uz * g p) l,
        map (fun p => Uz * f p - Ux * h p) l,
        map (fun p => Ux * g p - Uy * f p) l).
Proof.
  unfold left_candidate, np.sub, np.smul.
  rewrite !map_map. repeat (rewrite broadcast_map; simpl). reflexivity.
Qed.

Lemma protect_map {D : Type} (n : D -> R) (l : list D) :
  protect (map n l) = Ok (map (fun p => protect_at (n p)) l).
Proof.
  unfold protect, np.where_, np.lt.
  rewrite map_map, broadcast_map. reflexivity.
Qed.

(** ** The frame blocks, sample by sample *)

Lemma map_fst_combine {A B : Type} (x : list A) :
  forall y : list B, length x = length y -> map fst (combine x y) = x.
Proof.
  induction x as [|u x IH]; intros [|v y] H; simpl in *; try congruence.
  f_equal. apply IH. congruence.
Qed.

Lemma map_snd_combine {A B : Type} (x : list A) :
  forall y : list B, length x = length y -> map snd (combine x y) = y.
Proof.
  induction x as [|u x IH]; intros [|v y] H; simpl in *; try congruence.
  f_equal. apply IH. congruence.
Qed.

Lemma map_const_length {A B : Type} (k : R) (x : list A) :
  forall y : list B, length x = length y ->
  map (fun _ => k) x = map (fun _ => k) y.
Proof.
  induction x as [|u x IH]; intros [|v y] H; simpl in *; try congruence.
  f_equal. apply IH. congruence.
Qed.

Lemma slopes_length (dYds dZds : array) :
  length dYds = length dZds -> length (slopes dYds dZds) = length dYds.
Proof. intros H. unfold slopes. rewrite length_combine. lia. Qed.

Lemma raw_tangent_map (s dYds dZds : array) :
  length dYds = length s -> length dZds = length s ->
  raw_tangent s dYds dZds
  = (map (fun _ => 1) (slopes dYds dZds),
     map fst (slopes dYds dZds),
     map snd (slopes dYds dZds)).
Proof.
  intros HY HZ. unfold raw_tangent, slopes, np.ones_like.
  rewrite map_fst_combine, map_snd_combine by congruence.
  do 2 f_equal. apply map_const_length.
  rewrite length_combine. lia.
Qed.

Lemma unit_tangent_map (s dYds dZds : array) :
  length dYds = length s -> length dZds = length s ->
  unit_tangent s dYds dZds
  = Ok (map (fun p => tangent_norm_at (fst p) (snd p)) (slopes dYds dZds),
        (map (fun p => fst (fst (tangent_of p))) (slopes dYds dZds),
         map (fun p => snd (fst (tangent_of p))) (slopes dYds dZds),
         map (fun p => snd (tangent_of p)) (slopes dYds dZds))).
Proof.
  intros HY HZ. unfold unit_tangent.
  rewrite raw_tangent_map by assumption.
  rewrite norm_of_map. cbn [bind].
  rewrite divide_by_map. reflexivity.
Qed.

Lemma sample_unzip3 {D : Type} (t : D -> vec3) (l : list D) (i : nat) (d : D) :
  (i < length l)%nat -> sample (unzip3 t l) i = t (nth i l d).
Proof.
  intros H. unfold sample, unzip3.
  rewrite !(item_map _ l i d) by assumption.
  now destruct (t (nth i l d)) as [[x y] z].
Qed.

Lemma slopes_nth (dYds dZds : array) (i : nat) :
  length dYds = length dZds ->
  nth i (slopes dYds dZds) (0, 0) = (item dYds i, item dZds i).
Proof. intros H. unfold slopes, item. now apply combine_nth. Qed.

Lemma build_frame_map (s dYds dZds : array) :
  length dYds = length s -> length dZds = length s ->
  let l := slopes dYds dZds in
  build_frame s dYds dZds
  = Ok (Frame
          (map (fun p => tangent_norm_at (fst p) (snd p)) l)
          (unzip3 tangent_of l)
          (unzip3 (fun p => left_candidate_at (tangent_of p)) l)
          (map (fun p => norm (left_candidate_at (tangent_of p))) l)
          (map (fun p => protect_at (norm (left_candidate_at (tangent_of p)))) l)
          (unzip3 (fun p => left_at (tangent_of p)) l)).
Proof.
  intros HY HZ l. unfold build_frame.
  rewrite unit_tangent_map by assumption. fold l. cbn [bind].
  rewrite left_candidate_map. cbn [bind].
  rewrite norm_of_map. cbn [bind].
  rewrite protect_map. cbn [bind].
  rewrite divide_by_map. cbn [bind].
  reflexivity.
Qed.

(** [build_frame] succeeds on slope arrays of the length of [s], and every
    array of the frame holds, at each sample, the closed form of that
    sample. *)
Lemma build_frame_samples (s dYds dZds : array) :
  length dYds = length s -> length dZds = length s ->
  exists fr,
    build_frame s dYds dZds = Ok fr /\
    length (Tnorm fr) = length s /\
    forall i, (i < length s)%nat ->
      let t := tangent_at (item dYds i) (item dZds i) in
      item (Tnorm fr) i = tangent_norm_at (item dYds i) (item dZds i) /\
      sample (T fr) i = t /\
      sample (Lcand fr) i = left_candidate_at t /\
      item (Lnorm fr) i = norm (left_candidate_at t) /\
      item (Lsafe fr) i = protect_at (norm (left_candidate_at t)) /\
      sample (L fr) i = left_at t.
Proof.
  intros HY HZ. eexists. split; [now apply build_frame_map|].
  assert (Hl : length (slopes dYds dZds) = length s)
    by (rewrite slopes_length; congruence).
  cbn [Tnorm T Lcand Lnorm Lsafe L]. split; [now rewrite length_map|].
  intros i Hi. rewrite <- Hl in Hi.
  rewrite !(item_map _ _ i (0, 0)), !(sample_unzip3 _ _ i (0, 0)) by assumption.
  rewrite slopes_nth by congruence.
  repeat split; reflexivity.
Qed.

(** The tangent fields of a frame are what the tangent block returns. *)
Lemma build_frame_tangent (s dYds dZds : array) (fr : frame) :
  build_frame s dYds dZds = Ok fr ->
  unit_tangent s dYds dZds = Ok (Tnorm fr, T fr).
Proof.
  unfold build_frame. intros Hfr.
  destruct (unit_tangent s dYds dZds) as [[n t]|e]; cbn [bind] in Hfr;
    [|discriminate].
  destruct (left_candidate t) as [lc|e]; cbn [bind] in Hfr; [|discriminate].
  destruct (norm_of lc) as [ln|e]; cbn [bind] in Hfr; [|discriminate].
  destruct (protect ln) as [ls|e]; cbn [bind] in Hfr; [|discriminate].
  destruct (divide_by lc ls) as [l|e]; cbn [bind] in Hfr; [|discriminate].
  injection Hfr as <-. reflexivity.
Qed.

(** [build_centerline] on a well-shaped lateral function: the centerline is
    [s], the lateral offsets and the cubic elevations, and the left vectors
    are those of the frame built on the slopes. *)
Lemma build_centerline_frame (s : array) (a b c d : R)
    (lateral_func : option (array -> array * array)) :
  lateral_shape s lateral_func ->
  exists fr,
    build_frame s (snd (lateral s lateral_func)) (map (cubic' b c d) s) = Ok fr /\
    build_centerline s a b c d lateral_func
    = Ok (s, fst (lateral s lateral_func), map (cubic a b c d) s,
          fst (fst (L fr)), snd (fst (L fr)), snd (L fr)).
Proof.
  unfold lateral_shape, build_centerline. intros Hshape.
  destruct (lateral s lateral_func) as [Yc dYds]. cbn [fst snd] in *.
  destruct (build_frame_samples s dYds (map (cubic' b c d) s) Hshape)
    as (fr & Hfr & _); [now rewrite length_map|].
  exists fr. split; [assumption|].
  rewrite cubic_poly_map, cubic_poly_derivative_map. cbn [bind].
  rewrite Hfr. cbn [bind].
  now destruct (L fr) as [[Lx Ly] Lz].
Qed.

(** ** Shapes that do not fit *)

Lemma bind_ok {A B : Type} (m : result A) (k : A -> result B) (r : B) :
  bind m k = Ok r -> exists v, m = Ok v /\ k v = Ok r.
Proof. destruct m as [v|e]; [eauto | discriminate]. Qed.

Lemma broadcast_ok_length {A B C : Type} (f : A -> B -> C)
    (x : list A) (y : list B) (r : list C) :
  np.broadcast f x y = Ok r ->
  length r = if Nat.eqb (length x) 1 then length y else length x.
Proof.
  unfold np.broadcast.
  destruct (Nat.eqb_spec (length x) (length y)) as [E|E].
  - intros [= <-]. rewrite zip_with_length by assumption.
    destruct (Nat.eqb_spec (length x) 1); congruence.
  - destruct x as [|u [|u' x]], y as [|v [|v' y]]; cbn [length] in *;
      try congruence; intros [= <-]; cbn [Nat.eqb length map];
      rewrite ?length_map; reflexivity.
Qed.

Lemma idiv_ok_length (x y r : array) :
  np.idiv x y = Ok r -> length y = length x \/ length y = 1%nat.
Proof.
  unfold np.idiv.
  destruct (Nat.eqb_spec (length x) (length y)) as [E|E]; [auto|].
  destruct y as [|v [|v' y]]; [discriminate | auto | discriminate].
Qed.

(** A slope array whose length is not that of [s] makes the tangent block
    raise: the shape condition of the theorems above cannot be dropped. *)
Lemma build_frame_shape_error (s dYds dZds : array) :
  length dZds = length s -> length dYds <> length s ->
  build_frame s dYds dZds = Raise ValueError.
Proof.
  intros HZ HY.
  destruct (build_frame s dYds dZds) as [fr|[]] eqn:E; [exfalso | reflexivity].
  apply build_frame_tangent in E. unfold unit_tangent, raw_tangent in E.
  apply bind_ok in E as (n & Hn & E).
  apply bind_ok in E as (t & Ht & _).
  unfold norm_of in Hn.
  apply bind_ok in Hn as (xx & Hxx & Hn). apply broadcast_ok_length in Hxx.
  apply bind_ok in Hn as (yy & Hyy & Hn). apply broadcast_ok_length in Hyy.
  apply bind_ok in Hn as (xy & Hxy & Hn). apply broadcast_ok_length in Hxy.
  apply bind_ok in Hn as (zz & Hzz & Hn). apply broadcast_ok_length in Hzz.
  apply bind_ok in Hn as (n2 & Hn2 & Hn). apply broadcast_ok_length in Hn2.
  injection Hn as <-.
  unfold divide_by in Ht.
  apply bind_ok in Ht as (tx & Htx & Ht). apply idiv_ok_length in Htx.
  apply bind_ok in Ht as (ty & Hty & _). apply idiv_ok_length in Hty.
  unfold np.sqrt, np.ones_like in *. rewrite !length_map in *.
  repeat match goal with
         | H : context [Nat.eqb ?a ?b] |- _ => destruct (Nat.eqb_spec a b)
         end; lia.
Qed.

Lemma build_centerline_shape_error (s : array) (a b c d : R)
    (lateral_func : option (array -> array * array)) :
  ~ lateral_shape s lateral_func ->
  build_centerline s a b c d lateral_func = Raise ValueError.
Proof.
  unfold lateral_shape, build_centerline. intros Hshape.
  destruct (lateral s lateral_func) as [Yc dYds]. cbn [snd] in Hshape.
  rewrite cubic_poly_map, cubic_poly_derivative_map. cbn [bind].
  rewrite build_frame_shape_error;
    [reflexivity | now rewrite length_map | assumption].
Qed.

(** ** One sample: the real-number facts *)

Lemma Ux_eq : Ux = 0.
Proof. unfold Ux. lra. Qed.

Lemma Uy_eq : Uy = 0.
Proof. unfold Uy. lra. Qed.

Lemma Uz_eq : Uz = 1.
Proof. unfold Uz. lra. Qed.

Lemma small_pos : 0 < small.
Proof. unfold small. lra. Qed.

Lemma tangent_norm_at_sqr (dy dz : R) :
  tangent_norm_at dy dz * tangent_norm_at dy dz = 1 + dy * dy + dz * dz.
Proof. unfold tangent_norm_at. rewrite sqrt_sqrt; nra. Qed.

Lemma tangent_norm_at_ge_1 (dy dz : R) : 1 <= tangent_norm_at dy dz.
Proof.
  unfold tangent_norm_at. rewrite <- sqrt_1 at 1.
  apply sqrt_le_1_alt. nra.
Qed.


Lemma left_candidate_at_eq (tx ty tz : R) :
  left_candidate_at (tx, ty, tz) = (- ty, tx, 0).
Proof.
  unfold left_candidate_at. rewrite Ux_eq, Uy_eq, Uz_eq.
  repeat f_equal; ring.
Qed.

Lemma protect_at_degenerate (n : R) : n < small -> protect_at n = 1.0.
Proof. intros H. unfold protect_at. now destruct (Rlt_dec n small). Qed.

Lemma protect_at_regular (n : R) : small <= n -> protect_at n = n.
Proof.
  intros H. unfold protect_at. destruct (Rlt_dec n small); [lra | reflexivity].
Qed.

Lemma scale_inv_one (v : vec3) : scale_inv v 1.0 = v.
Proof.
  destruct v as [[x y] z]. unfold scale_inv.
  repeat f_equal; lra.
Qed.

Lemma norm_nonneg (v : vec3) : 0 <= norm v.
Proof. destruct v as [[x y] z]. apply sqrt_pos. Qed.

Lemma norm_sqr (v : vec3) : norm v * norm v = dot v v.
Proof. destruct v as [[x y] z]. unfold norm, dot. apply sqrt_sqrt. nra. Qed.

Lemma scale_inv_norm (v : vec3) : 0 < norm v -> norm (scale_inv v (norm v)) = 1.
Proof.
  intros Hpos. pose proof (norm_sqr v) as Hsq.
  destruct v as [[x y] z]. unfold scale_inv, dot in *.
  set (n := norm (x, y, z)) in *. unfold norm at 1.
  replace (x / n * (x / n) + y / n * (y / n) + z / n * (z / n))
    with ((x * x + y * y + z * z) / (n * n)) by (field; lra).
  rewrite <- Hsq. unfold Rdiv. rewrite Rinv_r by nra. apply sqrt_1.
Qed.

(** Degenerate sample: the candidate is returned as it is. *)
Lemma left_at_degenerate (t : vec3) :
  norm (left_candidate_at t) < small -> left_at t = left_candidate_at t.
Proof.
  intros H. unfold left_at. cbv zeta.
  rewrite protect_at_degenerate by assumption. apply scale_inv_one.
Qed.

(** Regular sample: the candidate is divided by its own norm. *)
Lemma left_at_unit (t : vec3) :
  small <= norm (left_candidate_at t) -> norm (left_at t) = 1.
Proof.
  intros H. unfold left_at. cbv zeta.
  rewrite protect_at_regular by assumption.
  apply scale_inv_norm. pose proof small_pos. lra.
Qed.

Lemma left_at_orthogonal (t : vec3) : dot (left_at t) t = 0.
Proof.
  destruct t as [[tx ty] tz]. unfold left_at. cbv zeta.
  rewrite left_candidate_at_eq.
  unfold scale_inv, dot, Rdiv. ring.
Qed.

(** ** The curve evaluator *)

(** C1. For every sample array [s] and coefficients [(a, b, c, d)],
    [cubic_poly] and [cubic_poly_derivative] return without error two arrays
    of the length of [s]; entry [i] of the first is
    [a + b*s_i + c*s_i^2 + d*s_i^3] and entry [i] of the second is
    [b + 2*c*s_i + 3*d*s_i^2]. *)
Theorem curve_evaluator_values (s : array) (a b c d : R) :
  exists z dz,
    cubic_poly s a b c d = Ok z /\
    cubic_poly_derivative s b c d = Ok dz /\
    length z = length s /\
    length dz = length s /\
    forall i, (i < length s)%nat ->
      item z i = a + b * item s i + c * item s i ^ 2 + d * item s i ^ 3 /\
      item dz i = b + 2 * c * item s i + 3 * d * item s i ^ 2.
Proof.
  exists (map (cubic a b c d) s), (map (cubic' b c d) s).
  split; [apply cubic_poly_map|].
  split; [apply cubic_poly_derivative_map|].
  rewrite !length_map. do 2 (split; [reflexivity|]).
  intros i Hi. rewrite !(item_map _ s i 0) by assumption.
  split; reflexivity.
Qed.

(** ** The tangent *)

(** C10. The tangent normalisation never divides by zero: on slope arrays of
    the length of [s] the tangent block returns, its norm array is the norm
    of [(1, dy/ds, dz/ds)] at every sample, and that norm is at least 1. *)
Theorem tangent_norm_at_least_one (s dYds dZds : array) :
  length dYds = length s -> length dZds = length s ->
  exists n t,
    unit_tangent s dYds dZds = Ok (n, t) /\
    length n = length s /\
    forall i, (i < length s)%nat ->
      item n i = norm (1, item dYds i, item dZds i) /\
      1 <= item n i /\
      item n i <> 0.
Proof.
  intros HY HZ.
  destruct (build_frame_samples s dYds dZds HY HZ) as (fr & Hfr & Hlen & Hs).
  exists (Tnorm fr), (T fr). split.
  - now apply build_frame_tangent.
  - split; [assumption|]. intros i Hi.
    destruct (Hs i Hi) as (Hn & _). rewrite Hn.
    pose proof (tangent_norm_at_ge_1 (item dYds i) (item dZds i)).
    split; [reflexivity|]. split; [assumption | lra].
Qed.


(** ** The left vector *)

(** C5. On slope arrays of the length of [s] the frame is built, and at
    every sample where the norm of the left candidate is at or above the
    threshold the left vector has norm 1 and its dot product with the
    tangent is 0. *)
Theorem left_unit_and_orthogonal (s dYds dZds : array) :
  length dYds = length s -> length dZds = length s ->
  exists fr,
    build_frame s dYds dZds = Ok fr /\
    forall i, (i < length s)%nat ->
      small <= norm (sample (Lcand fr) i) ->
      norm (sample (L fr) i) = 1 /\
      dot (sample (L fr) i) (sample (T fr) i) = 0.
Proof.
  intros HY HZ.
  destruct (build_frame_samples s dYds dZds HY HZ) as (fr & Hfr & _ & Hs).
  exists fr. split; [assumption|]. intros i Hi.
  destruct (Hs i Hi) as (_ & Ht & Hc & _ & _ & Hl).
  rewrite Hc, Hl, Ht. intros Hreg.
  split; [now apply left_at_unit | apply left_at_orthogonal].
Qed.

(** C3. Degenerate-frame policy.  On a lateral function that respects the
    shape of [s], [build_centerline] raises no error and returns the left
    vectors of the frame.  The array [Lnorm] holds the norm of the left
    candidate [U x T] of each sample, and at every sample where it is below
    [small] the norm used in the division is exactly 1.0 and the returned
    left vector is the candidate itself. *)
Theorem degenerate_frame_policy (s : array) (a b c d : R)
    (lateral_func : option (array -> array * array)) :
  lateral_shape s lateral_func ->
  exists Zc dZds fr,
    cubic_poly s a b c d = Ok Zc /\
    cubic_poly_derivative s b c d = Ok dZds /\
    build_frame s (snd (lateral s lateral_func)) dZds = Ok fr /\
    build_centerline s a b c d lateral_func
    = Ok (s, fst (lateral s lateral_func), Zc,
          fst (fst (L fr)), snd (fst (L fr)), snd (L fr)) /\
    forall i, (i < length s)%nat ->
      item (Lnorm fr) i = norm (sample (Lcand fr) i) /\
      (item (Lnorm fr) i < small ->
       item (Lsafe fr) i = 1.0 /\
       sample (L fr) i = sample (Lcand fr) i).
Proof.
  intros Hshape.
  destruct (build_centerline_frame s a b c d lateral_func Hshape)
    as (fr & Hfr & Hbc).
  exists (map (cubic a b c d) s), (map (cubic' b c d) s), fr.
  split; [apply cubic_poly_map|].
  split; [apply cubic_poly_derivative_map|].
  do 2 (split; [assumption|]).
  intros i Hi.
  destruct (build_frame_samples s _ (map (cubic' b c d) s) Hshape)
    as (fr' & Hfr' & _ & Hs); [now rewrite length_map|].
  rewrite Hfr in Hfr'. injection Hfr' as <-.
  destruct (Hs i Hi) as (_ & _ & Hc & Hn & Hsafe & Hl).
  rewrite Hc, Hn, Hsafe, Hl. split; [reflexivity|]. intros Hdeg.
  split; [now apply protect_at_degenerate | now apply left_at_degenerate].
Qed.

(** A slope of a billion makes the sample degenerate. *)
Lemma steep_slope_degenerate (dz : R) :
  1e9 <= dz -> norm (left_candidate_at (tangent_at 0 dz)) < small.
Proof.
  intros Hdz. unfold tangent_at. cbv zeta.
  rewrite left_candidate_at_eq.
  pose proof (tangent_norm_at_sqr 0 dz) as Hsq.
  pose proof (tangent_norm_at_ge_1 0 dz) as Hge.
  set (n := tangent_norm_at 0 dz) in *.
  assert (Hbig : 1e8 < n) by nra.
  unfold norm.
  replace (- (0 / n) * - (0 / n) + 1 / n * (1 / n) + 0 * 0)
    with (1 / n * (1 / n)) by (field; lra).
  assert (Hinv : 0 < 1 / n) by (apply Rdiv_lt_0_compat; lra).
  rewrite sqrt_square by lra.
  unfold small.
  apply (Rmult_lt_reg_r n); [lra|].
  replace (1 / n * n) with 1 by (field; lra). lra.
Qed.

Lemma degenerate_frame_policy_witness :
  exists Zc dZds fr,
    cubic_poly [0] 0 1e9 0 0 = Ok Zc /\
    cubic_poly_derivative [0] 1e9 0 0 = Ok dZds /\
    build_frame [0] [0] dZds = Ok fr /\
    build_centerline [0] 0 1e9 0 0 None
    = Ok ([0], [0], Zc, fst (fst (L fr)), snd (fst (L fr)), snd (L fr)) /\
    item (Lnorm fr) 0 < small /\
    item (Lsafe fr) 0 = 1.0 /\
    sample (L fr) 0 = sample (Lcand fr) 0.
Proof.
  destruct (degenerate_frame_policy [0] 0 1e9 0 0 None eq_refl)
    as (Zc & dZds & fr & HZ & HdZ & Hfr & Hbc & Hdeg).
  exists Zc, dZds, fr.
  do 4 (split; [assumption|]).
  assert (Hsteep : item (Lnorm fr) 0 < small).
  { rewrite cubic_poly_derivative_map in HdZ. injection HdZ as <-.
    destruct (build_frame_samples [0] [0] (map (cubic' 1e9 0 0) [0])
                eq_refl eq_refl) as (fr' & Hfr' & _ & Hs).
    change (build_frame [0] [0] (map (cubic' 1e9 0 0) [0]) = Ok fr) in Hfr.
    rewrite Hfr in Hfr'. injection Hfr' as <-.
    destruct (Hs 0%nat (Nat.lt_0_succ 0)) as (_ & _ & _ & Hn & _).
    rewrite Hn. apply steep_slope_degenerate.
    unfold item, cubic'. cbn [nth map]. lra. }
  split; [assumption|].
  apply (proj2 (Hdeg 0%nat (Nat.lt_0_succ 0)) Hsteep).
Defined.

(** ** The flat road *)

Lemma tangent_at_flat : tangent_at 0 0 = (1, 0, 0).
Proof.
  unfold tangent_at, tangent_norm_at. cbv zeta.
  replace (1 * 1 + 0 * 0 + 0 * 0) with 1 by ring. rewrite sqrt_1.
  repeat f_equal; lra.
Qed.

Lemma left_at_flat : left_at (1, 0, 0) = (0, 1, 0).
Proof.
  unfold left_at. cbv zeta. rewrite left_candidate_at_eq.
  assert (Hn : norm (- 0, 1, 0) = 1).
  { unfold norm. replace (- 0 * - 0 + 1 * 1 + 0 * 0) with 1 by ring.
    apply sqrt_1. }
  rewrite Hn, protect_at_regular by (unfold small; lra).
  unfold scale_inv. repeat f_equal; lra.
Qed.

(** C8. Flat road: with [a = b = c = d = 0] and no lateral function,
    [build_centerline] returns, every elevation is 0, every tangent is
    [(1, 0, 0)] and every left vector is [(0, 1, 0)]. *)
Theorem flat_road (s : array) :
  exists Zc dZds fr,
    cubic_poly s 0 0 0 0 = Ok Zc /\
    cubic_poly_derivative s 0 0 0 = Ok dZds /\
    build_frame s (np.zeros_like s) dZds = Ok fr /\
    build_centerline s 0 0 0 0 None
    = Ok (s, np.zeros_like s, Zc,
          fst (fst (L fr)), snd (fst (L fr)), snd (L fr)) /\
    forall i, (i < length s)%nat ->
      item Zc i = 0 /\
      sample (T fr) i = (1, 0, 0) /\
      sample (L fr) i = (0, 1, 0).
Proof.
  assert (Hshape : lateral_shape s None)
    by (unfold lateral_shape, lateral, np.zeros_like; cbn [snd];
        now rewrite length_map).
  destruct (build_centerline_frame s 0 0 0 0 None Hshape) as (fr & Hfr & Hbc).
  exists (map (cubic 0 0 0 0) s), (map (cubic' 0 0 0) s), fr.
  split; [apply cubic_poly_map|].
  split; [apply cubic_poly_derivative_map|].
  do 2 (split; [assumption|]).
  intros i Hi.
  destruct (build_frame_samples s (np.zeros_like s) (map (cubic' 0 0 0) s))
    as (fr' & Hfr' & _ & Hs);
    [unfold np.zeros_like; now rewrite length_map | now rewrite length_map |].
  change (build_frame s (np.zeros_like s) (map (cubic' 0 0 0) s) = Ok fr) in Hfr.
  rewrite Hfr in Hfr'. injection Hfr' as <-.
  destruct (Hs i Hi) as (_ & Ht & _ & _ & _ & Hl).
  assert (HdY : item (np.zeros_like s) i = 0)
    by (unfold np.zeros_like; now rewrite (item_map _ s i 0)).
  assert (HdZ : item (map (cubic' 0 0 0) s) i = 0)
    by (rewrite (item_map _ s i 0) by assumption; unfold cubic'; ring).
  rewrite HdY, HdZ, tangent_at_flat in Ht, Hl.
  rewrite (item_map _ s i 0) by assumption.
  split; [unfold cubic; ring|].
  split; [assumption|]. rewrite Hl. apply left_at_flat.
Qed.

(** ** The road mesh *)

Lemma smul_length (k : R) (x : array) : length (np.smul k x) = length x.
Proof. apply length_map. Qed.

Lemma item_smul (k : R) (x : array) (i : nat) :
  (i < length x)%nat -> item (np.smul k x) i = k * item x i.
Proof. intros H. unfold np.smul. now rewrite (item_map _ x i 0). Qed.

Lemma rail_length (f : R -> R -> R) (half : R) (Vc V : array) :
  length V = length Vc -> length (rail f half Vc V) = length Vc.
Proof.
  intros H. unfold rail. apply zip_with_length. now rewrite smul_length.
Qed.

Lemma item_rail (f : R -> R -> R) (half : R) (Vc V : array) (i : nat) :
  length V = length Vc -> (i < length Vc)%nat ->
  item (rail f half Vc V) i = f (item Vc i) (half * item V i).
Proof.
  intros H Hi. unfold rail.
  rewrite item_zip_with by (rewrite ?smul_length; congruence).
  now rewrite item_smul by congruence.
Qed.

Lemma make_road_mesh_rows (Xc Yc Zc Lx Ly Lz : array) (width : R) :
  length Lx = length Xc -> length Ly = length Yc -> length Lz = length Zc ->
  let half := width / 2.0 in
  make_road_mesh Xc Yc Zc Lx Ly Lz width
  = Ok ([rail Rplus half Xc Lx; rail Rminus half Xc Lx],
        [rail Rplus half Yc Ly; rail Rminus half Yc Ly],
        [rail Rplus half Zc Lz; rail Rminus half Zc Lz]).
Proof.
  intros HX HY HZ half. unfold make_road_mesh, np.add, np.sub. fold half.
  rewrite !broadcast_same_length by (rewrite smul_length; congruence).
  cbn [bind]. unfold np.vstack. fold (rail Rplus half Xc Lx).
  fold (rail Rminus half Xc Lx) (rail Rplus half Yc Ly)
       (rail Rminus half Yc Ly) (rail Rplus half Zc Lz)
       (rail Rminus half Zc Lz).
  rewrite !rail_length by assumption.
  rewrite !Nat.eqb_refl. reflexivity.
Qed.

Lemma item2_row0 (r0 r1 : array) (i : nat) : item2 [r0; r1] 0 i = item r0 i.
Proof. reflexivity. Qed.

Lemma item2_row1 (r0 r1 : array) (i : nat) : item2 [r0; r1] 1 i = item r1 i.
Proof. reflexivity. Qed.

(** On [n] columns the mesh is built, has two rows of [n] columns, and its
    two rails are the centerline plus and minus [width / 2.0] times the left
    vector. *)
Lemma make_road_mesh_points (n : nat) (Xc Yc Zc Lx Ly Lz : array) (width : R) :
  columns n Xc Yc Zc Lx Ly Lz ->
  exists X Y Z,
    make_road_mesh Xc Yc Zc Lx Ly Lz width = Ok (X, Y, Z) /\
    (shape2 X 2 n /\ shape2 Y 2 n /\ shape2 Z 2 n) /\
    forall i, (i < n)%nat ->
      let half := width / 2.0 in
      mesh_point (X, Y, Z) 0 i
      = (item Xc i + half * item Lx i,
         item Yc i + half * item Ly i,
         item Zc i + half * item Lz i) /\
      mesh_point (X, Y, Z) 1 i
      = (item Xc i - half * item Lx i,
         item Yc i - half * item Ly i,
         item Zc i - half * item Lz i).
Proof.
  intros (HXc & HYc & HZc & HLx & HLy & HLz).
  do 3 eexists. split.
  { apply make_road_mesh_rows; congruence. }
  split.
  { unfold shape2.
    repeat split; try reflexivity;
      repeat (apply Forall_cons; [rewrite rail_length; congruence|]);
      apply Forall_nil. }
  intros i Hi half. unfold mesh_point.
  rewrite !item2_row0, !item2_row1, !item_rail by congruence.
  split; reflexivity.
Qed.

(** C6. Mesh extrusion on [n] columns returns a grid of two rows and [n]
    columns; row 0 is the left rail, [centerline + (width/2) * L], and row 1
    is the right rail, [centerline - (width/2) * L], in every column. *)
Theorem make_road_mesh_rails (n : nat) (Xc Yc Zc Lx Ly Lz : array) (width : R) :
  columns n Xc Yc Zc Lx Ly Lz ->
  exists X Y Z,
    make_road_mesh Xc Yc Zc Lx Ly Lz width = Ok (X, Y, Z) /\
    (shape2 X 2 n /\ shape2 Y 2 n /\ shape2 Z 2 n) /\
    forall i, (i < n)%nat ->
      let half := width / 2 in
      mesh_point (X, Y, Z) 0 i
      = (item Xc i + half * item Lx i,
         item Yc i + half * item Ly i,
         item Zc i + half * item Lz i) /\
      mesh_point (X, Y, Z) 1 i
      = (item Xc i - half * item Lx i,
         item Yc i - half * item Ly i,
         item Zc i - half * item Lz i).
Proof.
  intros Hcols.
  destruct (make_road_mesh_points n Xc Yc Zc Lx Ly Lz width Hcols)
    as (X & Y & Z & Hm & Hshape & Hp).
  exists X, Y, Z. do 2 (split; [assumption|]).
  intros i Hi half.
  replace half with (width / 2.0) by (unfold half; lra).
  now apply Hp.
Qed.

(** C9. For every width and every left vector, in every column the midpoint
    of the left-rail point and the right-rail point is the centerline
    point. *)
Theorem make_road_mesh_midpoint (n : nat) (Xc Yc Zc Lx Ly Lz : array) (width : R) :
  columns n Xc Yc Zc Lx Ly Lz ->
  exists mesh,
    make_road_mesh Xc Yc Zc Lx Ly Lz width = Ok mesh /\
    forall i, (i < n)%nat ->
      midpoint (mesh_point mesh 0 i) (mesh_point mesh 1 i)
      = (item Xc i, item Yc i, item Zc i).
Proof.
  intros Hcols.
  destruct (make_road_mesh_points n Xc Yc Zc Lx Ly Lz width Hcols)
    as (X & Y & Z & Hm & _ & Hp).
  exists (X, Y, Z). split; [assumption|].
  intros i Hi. destruct (Hp i Hi) as (Hl & Hr).
  rewrite Hl, Hr. unfold midpoint. repeat f_equal; lra.
Qed.

Lemma norm_scale (k : R) (x y z : R) :
  norm (k * x, k * y, k * z) = Rabs k * norm (x, y, z).
Proof.
  unfold norm.
  replace (k * x * (k * x) + k * y * (k * y) + k * z * (k * z))
    with (k * k * (x * x + y * y + z * z)) by ring.
  rewrite sqrt_mult by nra.
  f_equal. fold (Rsqr k). apply sqrt_Rsqr_abs.
Qed.

(** The rails are [|width|] times the norm of the left vector apart. *)
Lemma make_road_mesh_separation (n : nat) (Xc Yc Zc Lx Ly Lz : array) (width : R) :
  columns n Xc Yc Zc Lx Ly Lz ->
  exists mesh,
    make_road_mesh Xc Yc Zc Lx Ly Lz width = Ok mesh /\
    forall i, (i < n)%nat ->
      norm (vsub (mesh_point mesh 0 i) (mesh_point mesh 1 i))
      = Rabs width * norm (item Lx i, item Ly i, item Lz i).
Proof.
  intros Hcols.
  destruct (make_road_mesh_points n Xc Yc Zc Lx Ly Lz width Hcols)
    as (X & Y & Z & Hm & _ & Hp).
  exists (X, Y, Z). split; [assumption|].
  intros i Hi. destruct (Hp i Hi) as (Hl & Hr).
  rewrite Hl, Hr. unfold vsub. rewrite <- norm_scale.
  f_equal. f_equal; [f_equal|]; lra.
Qed.

(** C7. With a width that is not negative, in every column whose left vector
    has norm 1 the distance between the left-rail point and the right-rail
    point is the width. *)
Theorem make_road_mesh_width (n : nat) (Xc Yc Zc Lx Ly Lz : array) (width : R) :
  columns n Xc Yc Zc Lx Ly Lz ->
  0 <= width ->
  exists mesh,
    make_road_mesh Xc Yc Zc Lx Ly Lz width = Ok mesh /\
    forall i, (i < n)%nat ->
      norm (item Lx i, item Ly i, item Lz i) = 1 ->
      norm (vsub (mesh_point mesh 0 i) (mesh_point mesh 1 i)) = width.
Proof.
  intros Hcols Hpos.
  destruct (make_road_mesh_separation n Xc Yc Zc Lx Ly Lz width Hcols)
    as (mesh & Hm & Hsep).
  exists mesh. split; [assumption|].
  intros i Hi Hunit. rewrite Hsep, Hunit by assumption.
  rewrite Rabs_pos_eq by lra. ring.
Qed.

(** ** Width is not validated *)

(** C2, as stated, fails: with width 0 and with width -1 the mesh is
    returned, and no error is reported.  With width 0 the two rails lie on
    the centerline; with width -1 the left rail lies half a unit to the
    right of it. *)
Lemma make_road_mesh_accepts_invalid_width :
  make_road_mesh [0] [0] [0] [0] [1] [0] 0
  = Ok ([[0]; [0]], [[0]; [0]], [[0]; [0]]) /\
  make_road_mesh [0] [0] [0] [0] [1] [0] (-1)
  = Ok ([[0]; [0]], [[-0.5]; [0.5]], [[0]; [0]]).
Proof.
  split; rewrite make_road_mesh_rows by reflexivity;
    unfold rail, np.smul; cbn [np.zip_with map]; reals.
Qed.

(** C2, amended. Mesh extrusion does not check the width: for every real
    width, on [n] columns it reports no error and returns the mesh; with
    width 0 both rails lie on the centerline. *)
Theorem make_road_mesh_any_width (n : nat) (Xc Yc Zc Lx Ly Lz : array)
    (width : R) :
  columns n Xc Yc Zc Lx Ly Lz ->
  exists mesh,
    make_road_mesh Xc Yc Zc Lx Ly Lz width = Ok mesh /\
    (width = 0 ->
     forall i, (i < n)%nat ->
       mesh_point mesh 0 i = (item Xc i, item Yc i, item Zc i) /\
       mesh_point mesh 1 i = (item Xc i, item Yc i, item Zc i)).
Proof.
  intros Hcols.
  destruct (make_road_mesh_points n Xc Yc Zc Lx Ly Lz width Hcols)
    as (X & Y & Z & Hm & _ & Hp).
  exists (X, Y, Z). split; [assumption|].
  intros Hw i Hi. destruct (Hp i Hi) as (Hl & Hr).
  rewrite Hl, Hr, Hw. split; reals.
Qed.

(** ** The theorems at concrete inputs *)

Lemma make_road_mesh_any_width_witness :
  exists mesh,
    make_road_mesh [0; 1] [0; 0] [2; 3] [0; 0] [1; 1] [0; 0] 0 = Ok mesh /\
    (0 = 0 ->
     forall i, (i < 2)%nat ->
       mesh_point mesh 0 i
       = (item [0; 1] i, item [0; 0] i, item [2; 3] i) /\
       mesh_point mesh 1 i
       = (item [0; 1] i, item [0; 0] i, item [2; 3] i)).
Proof.
  apply (make_road_mesh_any_width 2 [0; 1] [0; 0] [2; 3] [0; 0] [1; 1] [0; 0]).
  repeat split.
Defined.

Lemma tangent_norm_at_least_one_witness :
  exists n t,
    unit_tangent [0; 50] [0; 0] [2; -1] = Ok (n, t) /\
    length n = 2%nat /\
    forall i, (i < 2)%nat ->
      item n i = norm (1, item [0; 0] i, item [2; -1] i) /\
      1 <= item n i /\
      item n i <> 0.
Proof.
  apply (tangent_norm_at_least_one [0; 50] [0; 0] [2; -1]); reflexivity.
Defined.


(** A level sample is regular: its left candidate has norm 1. *)
Lemma level_sample_regular : small <= norm (left_candidate_at (tangent_at 0 0)).
Proof.
  rewrite tangent_at_flat, left_candidate_at_eq.
  unfold norm. replace (- 0 * - 0 + 1 * 1 + 0 * 0) with 1 by ring.
  rewrite sqrt_1. unfold small. lra.
Qed.

Lemma left_unit_and_orthogonal_witness :
  exists fr,
    build_frame [7] [0] [0] = Ok fr /\
    norm (sample (L fr) 0) = 1 /\
    dot (sample (L fr) 0) (sample (T fr) 0) = 0.
Proof.
  destruct (left_unit_and_orthogonal [7] [0] [0] eq_refl eq_refl)
    as (fr & Hfr & Hreg).
  exists fr. split; [assumption|].
  apply (Hreg 0%nat (Nat.lt_0_succ 0)).
  destruct (build_frame_samples [7] [0] [0] eq_refl eq_refl)
    as (fr' & Hfr' & _ & Hs).
  rewrite Hfr in Hfr'. injection Hfr' as <-.
  destruct (Hs 0%nat (Nat.lt_0_succ 0)) as (_ & _ & Hc & _).
  rewrite Hc. apply level_sample_regular.
Defined.

Lemma make_road_mesh_rails_witness :
  exists X Y Z,
    make_road_mesh [0; 1] [0; 0] [2; 3] [0; 0] [1; 1] [0; 0] 6 = Ok (X, Y, Z) /\
    (shape2 X 2 2 /\ shape2 Y 2 2 /\ shape2 Z 2 2) /\
    forall i, (i < 2)%nat ->
      let half := 6 / 2 in
      mesh_point (X, Y, Z) 0 i
      = (item [0; 1] i + half * item [0; 0] i,
         item [0; 0] i + half * item [1; 1] i,
         item [2; 3] i + half * item [0; 0] i) /\
      mesh_point (X, Y, Z) 1 i
      = (item [0; 1] i - half * item [0; 0] i,
         item [0; 0] i - half * item [1; 1] i,
         item [2; 3] i - half * item [0; 0] i).
Proof.
  apply (make_road_mesh_rails 2 [0; 1] [0; 0] [2; 3] [0; 0] [1; 1] [0; 0]).
  repeat split.
Defined.

Lemma make_road_mesh_midpoint_witness :
  exists mesh,
    make_road_mesh [0; 1] [0; 0] [2; 3] [0; 0] [1; 1] [0; 0] 6 = Ok mesh /\
    forall i, (i < 2)%nat ->
      midpoint (mesh_point mesh 0 i) (mesh_point mesh 1 i)
      = (item [0; 1] i, item [0; 0] i, item [2; 3] i).
Proof.
  apply (make_road_mesh_midpoint 2 [0; 1] [0; 0] [2; 3] [0; 0] [1; 1] [0; 0]).
  repeat split.
Defined.

Lemma make_road_mesh_width_witness :
  exists mesh,
    make_road_mesh [0; 1] [0; 0] [2; 3] [0; 0] [1; 1] [0; 0] 6 = Ok mesh /\
    norm (vsub (mesh_point mesh 0 1) (mesh_point mesh 1 1)) = 6.
Proof.
  destruct (make_road_mesh_width 2 [0; 1] [0; 0] [2; 3] [0; 0] [1; 1] [0; 0] 6)
    as (mesh & Hm & Hw); [repeat split | lra |].
  exists mesh. split; [assumption|].
  apply (Hw 1%nat); [lia|].
  unfold norm, item. cbn [nth].
  replace (0 * 0 + 1 * 1 + 0 * 0) with 1 by ring. apply sqrt_1.
Defined.

(** The formula scenario of the default coefficients: [z(100) = 2]. *)
Example cubic_poly_default_at_100 :
  cubic_poly [100] 0 0.02 0.001 (-1e-5) = Ok [2].
Proof. rewrite cubic_poly_map. unfold cubic. cbn [map]. reals. Qed.

Example cubic_poly_derivative_default_at_100 :
  cubic_poly_derivative [100] 0.02 0.001 (-1e-5) = Ok [-0.08].
Proof. rewrite cubic_poly_derivative_map. unfold cubic'. cbn [map]. reals. Qed.

(** * Further properties of the geometry *)

(** ** The curve and its slope *)

Lemma cubic_derivative (a b c d x : R) :
  derivable_pt_lim (cubic a b c d) x (cubic' b c d x).
Proof.
  unfold cubic, cubic'.
  replace (b + 2 * c * x + 3 * d * x ^ 2)
    with (0 + b * 1 + c * (INR 2 * x ^ pred 2) + d * (INR 3 * x ^ pred 3))
    by (simpl; lra).
  change (fun si : R => a + b * si + c * si ^ 2 + d * si ^ 3)
    with (fct_cte a + mult_real_fct b id + mult_real_fct c (fun y => y ^ 2)
          + mult_real_fct d (fun y => y ^ 3))%F.
  repeat apply derivable_pt_lim_plus.
  - apply derivable_pt_lim_const.
  - apply derivable_pt_lim_scal, derivable_pt_lim_id.
  - apply derivable_pt_lim_scal, derivable_pt_lim_pow.
  - apply derivable_pt_lim_scal, derivable_pt_lim_pow.
Qed.

(** X1. What [cubic_poly_derivative] returns is the derivative of what
    [cubic_poly] returns: the two functions apply to every sample a function
    [z] and a function [z'], and [z'] is the derivative of [z] at every
    point. *)
Theorem cubic_poly_derivative_is_the_derivative (a b c d : R) :
  exists z z' : R -> R,
    (forall s, cubic_poly s a b c d = Ok (map z s) /\
               cubic_poly_derivative s b c d = Ok (map z' s)) /\
    forall x, derivable_pt_lim z x (z' x).
Proof.
  exists (cubic a b c d), (cubic' b c d). split.
  - intros s. split; [apply cubic_poly_map | apply cubic_poly_derivative_map].
  - intros x. apply cubic_derivative.
Qed.

(** ** When [build_centerline] returns *)

(** X2. [build_centerline] returns exactly when the derivative array of the
    lateral function has one entry per sample; on any other shape it raises
    [ValueError]. *)
Theorem build_centerline_returns_iff (s : array) (a b c d : R)
    (lateral_func : option (array -> array * array)) :
  (lateral_shape s lateral_func <->
   exists r, build_centerline s a b c d lateral_func = Ok r) /\
  (~ lateral_shape s lateral_func <->
   build_centerline s a b c d lateral_func = Raise ValueError).
Proof.
  assert (Hdec : lateral_shape s lateral_func \/ ~ lateral_shape s lateral_func)
    by (unfold lateral_shape; lia).
  split; split.
  - intros H. destruct (build_centerline_frame s a b c d lateral_func H)
      as (fr & _ & Hbc). eauto.
  - intros (r & Hr). destruct Hdec as [H|H]; [assumption|].
    rewrite (build_centerline_shape_error s a b c d lateral_func H) in Hr.
    discriminate.
  - apply build_centerline_shape_error.
  - intros Hr H. destruct (build_centerline_frame s a b c d lateral_func H)
      as (fr & _ & Hbc). congruence.
Qed.

(** ** The left vector at every sample *)




Lemma left_at_horizontal (t : vec3) : snd (left_at t) = 0.
Proof.
  destruct t as [[tx ty] tz]. unfold left_at. cbv zeta.
  rewrite left_candidate_at_eq. unfold scale_inv, Rdiv. cbn [snd]. ring.
Qed.

(** X3. At every sample, degenerate or not, the left vector has no vertical
    component and its dot product with the tangent is 0. *)
Theorem left_horizontal_and_orthogonal (s dYds dZds : array) :
  length dYds = length s -> length dZds = length s ->
  exists fr,
    build_frame s dYds dZds = Ok fr /\
    forall i, (i < length s)%nat ->
      snd (sample (L fr) i) = 0 /\
      dot (sample (L fr) i) (sample (T fr) i) = 0.
Proof.
  intros HY HZ.
  destruct (build_frame_samples s dYds dZds HY HZ) as (fr & Hfr & _ & Hs).
  exists fr. split; [assumption|]. intros i Hi.
  destruct (Hs i Hi) as (_ & Ht & _ & _ & _ & Hl).
  rewrite Hl, Ht. split; [apply left_at_horizontal | apply left_at_orthogonal].
Qed.

Lemma left_horizontal_and_orthogonal_witness :
  exists fr,
    build_frame [0; 50] [0; 1] [2; -1] = Ok fr /\
    forall i, (i < 2)%nat ->
      snd (sample (L fr) i) = 0 /\
      dot (sample (L fr) i) (sample (T fr) i) = 0.
Proof.
  apply (left_horizontal_and_orthogonal [0; 50] [0; 1] [2; -1]); reflexivity.
Defined.



(** ** The distance between the rails *)

(** X5. For every width and every left vector, in every column the
    distance between the two rails is the absolute value of the width times
    the norm of the left vector: a negative width separates the rails as its
    absolute value does, and where the left vector is shorter than [small]
    the rails are closer than [small] times that. *)
Theorem rail_distance (n : nat) (Xc Yc Zc Lx Ly Lz : array) (width : R) :
  columns n Xc Yc Zc Lx Ly Lz ->
  exists mesh,
    make_road_mesh Xc Yc Zc Lx Ly Lz width = Ok mesh /\
    forall i, (i < n)%nat ->
      let l := (item Lx i, item Ly i, item Lz i) in
      let gap := norm (vsub (mesh_point mesh 0 i) (mesh_point mesh 1 i)) in
      gap = Rabs width * norm l /\
      (norm l < small -> gap <= Rabs width * small).
Proof.
  intros Hcols.
  destruct (make_road_mesh_separation n Xc Yc Zc Lx Ly Lz width Hcols)
    as (mesh & Hm & Hsep).
  exists mesh. split; [assumption|]. intros i Hi l gap.
  unfold gap, l. rewrite (Hsep i Hi). split; [reflexivity|].
  intros Hshort. pose proof (Rabs_pos width). nra.
Qed.

Lemma rail_distance_witness :
  exists mesh,
    make_road_mesh [0; 1] [0; 0] [2; 3] [0; 0] [1; 1e-9] [0; 0] (-6) = Ok mesh /\
    forall i, (i < 2)%nat ->
      let l := (item [0; 0] i, item [1; 1e-9] i, item [0; 0] i) in
      let gap := norm (vsub (mesh_point mesh 0 i) (mesh_point mesh 1 i)) in
      gap = Rabs (-6) * norm l /\
      (norm l < small -> gap <= Rabs (-6) * small).
Proof.
  apply (rail_distance 2 [0; 1] [0; 0] [2; 3] [0; 0] [1; 1e-9] [0; 0]).
  repeat split.
Defined.
